(** * VertiScale: scale an object so that two selected vertices end up a
    requested distance apart

    Shallow embedding of [src/VertiScale.py], the Blender operator
    [OBJECT_OT_scale_to_vertex_distance], and the properties its
    specification states about it.

    Numbers.  Blender's [mathutils] and Python compute in binary floating
    point.  This development is carried out over the exact reals of the
    Standard Library: every arithmetic operation is the mathematical one and
    no rounding is modelled.  All numeric statements below are therefore
    statements about exact arithmetic; branch conditions ([== 0], [<= 0],
    [< 1e-6]) are the exact comparisons.  Here a measured length neither
    underflows nor overflows, [inverted()] fails exactly on determinant 0,
    and world positions are not rounded.  A statement that is meant to
    carry over to the floating-point program is therefore phrased on the
    quantities the code itself computes and tests: the measured distance,
    the computed factor, the failure of [inverted()].

    Exceptions.  Python operations that can raise are modelled with [option]
    results and an explicit [Raise] completion of the operator: float
    division ([ZeroDivisionError]), list indexing ([IndexError]) and
    [Matrix.inverted()] ([ValueError] on a matrix without inverse). *)

From Stdlib Require Import Reals Lra List String Ascii DecimalString Bool Arith Lia.
Import ListNotations.
Open Scope R_scope.

(* ================================================================= *)
(** ** mathutils: 3D vectors and object matrices *)

Module Mathutils.

(** [mathutils.Vector] of size 3. *)
Record Vector : Set := Vec { vx : R; vy : R; vz : R }.

Definition Vector_add (a b : Vector) : Vector :=
  Vec (vx a + vx b) (vy a + vy b) (vz a + vz b).

Definition Vector_sub (a b : Vector) : Vector :=
  Vec (vx a - vx b) (vy a - vy b) (vz a - vz b).

(** [v * s], a vector times a scalar. *)
Definition Vector_mul (a : Vector) (s : R) : Vector :=
  Vec (vx a * s) (vy a * s) (vz a * s).

Definition dot (a b : Vector) : R :=
  vx a * vx b + vy a * vy b + vz a * vz b.

(** [v.length], the Euclidean norm. *)
Definition Vector_length (a : Vector) : R := sqrt (dot a a).

(** The 3x3 linear part of a matrix, stored by rows. *)
Record Matrix3 : Set := Rows { row0 : Vector; row1 : Vector; row2 : Vector }.

Definition col0 (m : Matrix3) : Vector := Vec (vx (row0 m)) (vx (row1 m)) (vx (row2 m)).
Definition col1 (m : Matrix3) : Vector := Vec (vy (row0 m)) (vy (row1 m)) (vy (row2 m)).
Definition col2 (m : Matrix3) : Vector := Vec (vz (row0 m)) (vz (row1 m)) (vz (row2 m)).

Definition Matrix3_apply (m : Matrix3) (v : Vector) : Vector :=
  Vec (dot (row0 m) v) (dot (row1 m) v) (dot (row2 m) v).

Definition Matrix3_mul (m n : Matrix3) : Matrix3 :=
  Rows (Vec (dot (row0 m) (col0 n)) (dot (row0 m) (col1 n)) (dot (row0 m) (col2 n)))
       (Vec (dot (row1 m) (col0 n)) (dot (row1 m) (col1 n)) (dot (row1 m) (col2 n)))
       (Vec (dot (row2 m) (col0 n)) (dot (row2 m) (col1 n)) (dot (row2 m) (col2 n))).

Definition identity3 : Matrix3 := Rows (Vec 1 0 0) (Vec 0 1 0) (Vec 0 0 1).

(** [m] with column [j] multiplied by the [j]-th component of [s]:
    the product of [m] with the diagonal matrix of [s]. *)
Definition Matrix3_scale_columns (m : Matrix3) (s : Vector) : Matrix3 :=
  Rows (Vec (vx (row0 m) * vx s) (vy (row0 m) * vy s) (vz (row0 m) * vz s))
       (Vec (vx (row1 m) * vx s) (vy (row1 m) * vy s) (vz (row1 m) * vz s))
       (Vec (vx (row2 m) * vx s) (vy (row2 m) * vy s) (vz (row2 m) * vz s)).

Definition determinant3 (m : Matrix3) : R :=
  let (a, b, c) := row0 m in
  let (d, e, f) := row1 m in
  let (g, h, i) := row2 m in
  a * (e * i - f * h) - b * (d * i - f * g) + c * (d * h - e * g).

(** Transposed matrix of cofactors. *)
Definition adjugate3 (m : Matrix3) : Matrix3 :=
  let (a, b, c) := row0 m in
  let (d, e, f) := row1 m in
  let (g, h, i) := row2 m in
  Rows (Vec (e * i - f * h) (c * h - b * i) (b * f - c * e))
       (Vec (f * g - d * i) (a * i - c * g) (c * d - a * f))
       (Vec (d * h - e * g) (b * g - a * h) (a * e - b * d)).

Definition Matrix3_div (m : Matrix3) (k : R) : Matrix3 :=
  Rows (Vector_mul (row0 m) (/ k)) (Vector_mul (row1 m) (/ k)) (Vector_mul (row2 m) (/ k)).

(** A 4x4 object matrix.  Its last row is always (0, 0, 0, 1), so it is
    stored as a linear part and a translation column. *)
Record Matrix : Set := Mat { linear : Matrix3; translation : Vector }.

(** [m @ v] for a 4x4 matrix and a 3D vector: the vector is extended with
    a fourth component 1 and the result is cut back to 3D. *)
Definition matmul_vec (m : Matrix) (v : Vector) : Vector :=
  Vector_add (Matrix3_apply (linear m) v) (translation m).

(** [m @ n] for two 4x4 matrices. *)
Definition matmul (m n : Matrix) : Matrix :=
  Mat (Matrix3_mul (linear m) (linear n))
      (Vector_add (Matrix3_apply (linear m) (translation n)) (translation m)).

Definition to_translation (m : Matrix) : Vector := translation m.

Definition determinant (m : Matrix) : R := determinant3 (linear m).

(** [m.inverted()]: [None] stands for the [ValueError] that mathutils
    raises when the matrix has no inverse. *)
Definition inverted (m : Matrix) : option Matrix :=
  if Req_dec_T (determinant m) 0 then None
  else
    let li := Matrix3_div (adjugate3 (linear m)) (determinant m) in
    Some (Mat li (Vector_mul (Matrix3_apply li (translation m)) (-1))).

(** [Matrix.LocRotScale(loc, rot, scale)]: scale, then rotate, then
    translate. *)
Definition LocRotScale (loc : Vector) (rot : Matrix3) (scale : Vector) : Matrix :=
  Mat (Matrix3_scale_columns rot scale) loc.

(** Python float division [a / b]; [None] is [ZeroDivisionError]. *)
Definition truediv (a b : R) : option R :=
  if Req_dec_T b 0 then None else Some (a / b).

End Mathutils.

Import Mathutils.

Declare Scope vec_scope.
Delimit Scope vec_scope with vec.
Bind Scope vec_scope with Vector.
Infix "+" := Vector_add : vec_scope.
Infix "-" := Vector_sub : vec_scope.
Infix "*" := Vector_mul : vec_scope.
Infix "@" := matmul_vec (at level 40, left associativity) : vec_scope.

(* ================================================================= *)
(** ** The host's data: objects, meshes, context *)

Inductive ObjectType : Set := MESH | CURVE | EMPTY | CAMERA | LIGHT.

Inductive Mode : Set := EDIT_MESH | OBJECT | SCULPT | POSE.

Definition ObjectType_eqb (a b : ObjectType) : bool :=
  match a, b with
  | MESH, MESH | CURVE, CURVE | EMPTY, EMPTY | CAMERA, CAMERA | LIGHT, LIGHT => true
  | _, _ => false
  end.

Definition Mode_eqb (a b : Mode) : bool :=
  match a, b with
  | EDIT_MESH, EDIT_MESH | OBJECT, OBJECT | SCULPT, SCULPT | POSE, POSE => true
  | _, _ => false
  end.

(** A vertex of the edit mesh: local coordinates and selection flag. *)
Record BMVert : Set := mkBMVert { co : Vector; select : bool }.

Record BMesh : Set := mkBMesh { verts : list BMVert }.

Local Unset Elimination Schemes.

(** An object: its type, its own location, rotation and scale, its parent
    and its mesh data.  The rotation is kept as the 3x3 matrix it denotes. *)
Inductive Object : Set := mkObject {
  type : ObjectType;
  location : Vector;
  rotation : Matrix3;
  scale : Vector;
  parent : option Object;
  data : BMesh
}.

Local Set Elimination Schemes.

(** Modelled from the spec: the host's computation of [obj.matrix_world],
    which the operator only reads.  Section 3 of the specification gives
    the transform as the composition of a scale, a rotation and a
    translation that maps local coordinates to world coordinates, or to the
    parent's coordinates when there is a parent: the matrix built from
    location, rotation and scale, composed with the parent's world matrix.
    Parent-inverse matrices, delta transforms and constraints of the host
    are outside this model. *)
Fixpoint matrix_world (obj : Object) : Matrix :=
  let basis := LocRotScale (location obj) (rotation obj) (scale obj) in
  match parent obj with
  | None => basis
  | Some p => matmul (matrix_world p) basis
  end.

Definition set_scale (obj : Object) (s : Vector) : Object :=
  mkObject (type obj) (location obj) (rotation obj) s (parent obj) (data obj).

Definition set_location (obj : Object) (l : Vector) : Object :=
  mkObject (type obj) l (rotation obj) (scale obj) (parent obj) (data obj).

Record Context : Set := mkContext { active_object : option Object; mode : Mode }.

(** The context after the active object has been mutated in place. *)
Definition with_active_object (context : Context) (obj : Object) : Context :=
  mkContext (Some obj) (mode context).

(** [bmesh.from_edit_mesh(obj.data)]. *)
Definition from_edit_mesh (me : BMesh) : BMesh := me.

(* ================================================================= *)
(** ** The operator *)

Inductive ReportType : Set := ERROR | WARNING | INFO.

Definition Report : Set := (ReportType * string)%type.

Inductive Status : Set := FINISHED | CANCELLED.

Inductive Exception : Set := ValueError | ZeroDivisionError | IndexError.

Inductive Completion : Set :=
| Return (s : Status)
| Raise (e : Exception).

(** What one call of the operator leaves behind: how it completed, the
    messages passed to [self.report], and the context with the (possibly
    mutated) active object. *)
Record Outcome : Set := mkOutcome {
  completion : Completion;
  reports : list Report;
  scene : Context
}.

(** The declaration of a [FloatProperty]: default value and hard minimum. *)
Record FloatProperty : Set := mkFloatProperty { default : R; min : R }.

(** Lines 21-27. *)
Definition target_distance_property : FloatProperty :=
  mkFloatProperty 1 0.

Record Operator : Set := mkOperator { target_distance : R }.

(** A freshly registered operator instance holds the property's default. *)
Definition new_operator : Operator :=
  mkOperator (default target_distance_property).

(** Modelled from the spec: the host's assignment to the property.
    Section 6 gives the parameter as a non-negative real number, and the
    declaration says of its minimum "This prevents the property from going
    negative": an assigned value below the minimum is stored as the
    minimum. *)
Definition set_target_distance (self : Operator) (value : R) : Operator :=
  mkOperator (Rmax (min target_distance_property) value).

Definition min_target_distance : R := 1e-6.

Open Scope string_scope.

(** Lines 57-62: the reports produced and the effective target distance. *)
Definition clamp_target (self : Operator) : list Report * R :=
  if Rle_dec (target_distance self) 0 then
    ([(WARNING, "Target distance cannot be 0; using minimum value 0.000001")],
     min_target_distance)
  else
    ([], target_distance self).

Definition cancel (context : Context) (message : string) : Outcome :=
  mkOutcome (Return CANCELLED) [(ERROR, message)] context.

(** Lines 29-89. *)
Definition execute (self : Operator) (context : Context) : Outcome :=
  match active_object context with
  | None => cancel context "Active object is not a mesh"
  | Some obj =>
    if negb (ObjectType_eqb (type obj) MESH) then
      cancel context "Active object is not a mesh"
    else if negb (Mode_eqb (mode context) EDIT_MESH) then
      cancel context "Must be in Edit Mode"
    else
      let bm := from_edit_mesh (data obj) in
      let selected_verts := filter select (verts bm) in
      if negb (List.length selected_verts =? 2)%nat then
        cancel context "Select exactly two vertices"
      else
        match nth_error selected_verts 0, nth_error selected_verts 1 with
        | Some sv0, Some sv1 =>
          let v1_world := (matrix_world obj @ co sv0)%vec in
          let v2_world := (matrix_world obj @ co sv1)%vec in
          let current_distance := Vector_length (v1_world - v2_world) in
          if Req_dec_T current_distance 0 then
            cancel context "Selected vertices are at the same location"
          else
            let '(warnings, effective_target_distance) := clamp_target self in
            match truediv effective_target_distance current_distance with
            | None => mkOutcome (Raise ZeroDivisionError) warnings context
            | Some scale_factor =>
              if Rlt_dec (Rabs (scale_factor - 1)) 1e-6 then
                mkOutcome (Return FINISHED)
                          (warnings ++ [(INFO, "No scaling needed")]) context
              else
                let pivot := ((v1_world + v2_world) * 0.5)%vec in
                let old_world_loc := to_translation (matrix_world obj) in
                let new_world_loc :=
                  (pivot + (old_world_loc - pivot) * scale_factor)%vec in
                let obj := set_scale obj (scale obj * scale_factor) in
                match parent obj with
                | Some p =>
                  match inverted (matrix_world p) with
                  | None =>
                    mkOutcome (Raise ValueError) warnings
                              (with_active_object context obj)
                  | Some inv =>
                    mkOutcome (Return FINISHED)
                      (warnings ++ [(INFO, "Object scaled successfully")])
                      (with_active_object context
                         (set_location obj (inv @ new_world_loc)))
                  end
                | None =>
                  mkOutcome (Return FINISHED)
                    (warnings ++ [(INFO, "Object scaled successfully")])
                    (with_active_object context (set_location obj new_world_loc))
                end
            end
        | _, _ => mkOutcome (Raise IndexError) [] context
        end
  end.

(** What [invoke] hands back to the host: a returned status, the value of
    [invoke_props_dialog] (the host keeps the dialog open on the operator
    and calls [execute] when the user confirms), or an exception. *)
Inductive InvokeCompletion : Set :=
| InvokeReturn (s : Status)
| InvokeDialog
| InvokeRaise (e : Exception).

(** What one call of [invoke] leaves behind: how it completed, the messages
    passed to [self.report], and the operator with its (possibly
    pre-filled) target distance.  The context is only read. *)
Record InvokeOutcome : Set := mkInvokeOutcome {
  invoke_completion : InvokeCompletion;
  invoke_reports : list Report;
  invoke_self : Operator
}.

Definition invoke_cancel (self : Operator) (message : string) : InvokeOutcome :=
  mkInvokeOutcome (InvokeReturn CANCELLED) [(ERROR, message)] self.

(** Lines 91-115. *)
Definition invoke (self : Operator) (context : Context) : InvokeOutcome :=
  match active_object context with
  | None => invoke_cancel self "Active object is not a mesh"
  | Some obj =>
    if negb (ObjectType_eqb (type obj) MESH) then
      invoke_cancel self "Active object is not a mesh"
    else if negb (Mode_eqb (mode context) EDIT_MESH) then
      invoke_cancel self "Must be in Edit Mode"
    else
      let bm := from_edit_mesh (data obj) in
      let selected_verts := filter select (verts bm) in
      if negb (List.length selected_verts =? 2)%nat then
        invoke_cancel self "Select exactly two vertices"
      else
        match nth_error selected_verts 0, nth_error selected_verts 1 with
        | Some sv0, Some sv1 =>
          let v1_world := (matrix_world obj @ co sv0)%vec in
          let v2_world := (matrix_world obj @ co sv1)%vec in
          let current_distance := Vector_length (v1_world - v2_world) in
          let self := set_target_distance self current_distance in
          mkInvokeOutcome InvokeDialog [] self
        | _, _ => mkInvokeOutcome (InvokeRaise IndexError) [] self
        end
  end.

(* ================================================================= *)
(** ** Quantities the properties are stated with *)

(** World position of a vertex of [obj] under [obj]'s current transform. *)
Definition world_co (obj : Object) (v : BMVert) : Vector :=
  (matrix_world obj @ co v)%vec.

Definition world_distance (obj : Object) (v0 v1 : BMVert) : R :=
  Vector_length (world_co obj v0 - world_co obj v1).

Definition world_midpoint (obj : Object) (v0 v1 : BMVert) : Vector :=
  ((world_co obj v0 + world_co obj v1) * 0.5)%vec.

(** The three checks of lines 30-45: a mesh is active, the mode is Edit
    Mode, and the selected vertices are exactly [sv0] and [sv1]. *)
Definition selects (context : Context) (obj : Object) (sv0 sv1 : BMVert) : Prop :=
  active_object context = Some obj /\
  type obj = MESH /\
  mode context = EDIT_MESH /\
  filter select (verts (data obj)) = [sv0; sv1].

(** All four precondition checks pass. *)
Definition passes_checks (context : Context) (obj : Object) (sv0 sv1 : BMVert) : Prop :=
  selects context obj sv0 sv1 /\ world_co obj sv0 <> world_co obj sv1.

Definition effective_target_distance (self : Operator) : R :=
  snd (clamp_target self).

Definition scale_factor (self : Operator) (obj : Object) (sv0 sv1 : BMVert) : R :=
  effective_target_distance self / world_distance obj sv0 sv1.

(** Line 77. *)
Definition new_world_loc (obj : Object) (sv0 sv1 : BMVert) (s : R) : Vector :=
  let pivot := world_midpoint obj sv0 sv1 in
  (pivot + (to_translation (matrix_world obj) - pivot) * s)%vec.

(** The parent's world matrix can be inverted (trivially so without parent). *)
Definition parent_invertible (obj : Object) : Prop :=
  match parent obj with
  | None => True
  | Some p => determinant (matrix_world p) <> 0
  end.

(** The active object a call leaves behind, if any. *)
Definition object_after (out : Outcome) : option Object :=
  active_object (scene out).

Definition has_report (level : ReportType) (out : Outcome) : Prop :=
  exists message, In (level, message) (reports out).

(** Lines 83-86: a world-space point expressed in the coordinate space of
    the parent of [obj]; [None] when the parent's matrix has no inverse. *)
Definition to_parent_space (obj : Object) (w : Vector) : option Vector :=
  match parent obj with
  | Some p =>
    match inverted (matrix_world p) with
    | Some inv => Some (inv @ w)%vec
    | None => None
    end
  | None => Some w
  end.

(** [obj] with another mesh. *)
Definition set_data (obj : Object) (d : BMesh) : Object :=
  mkObject (type obj) (location obj) (rotation obj) (scale obj) (parent obj) d.

(* ================================================================= *)
(** ** Concrete scenes *)

Definition origin : Vector := Vec 0 0 0.

Definition ones : Vector := Vec 1 1 1.

Definition segment_v0 : BMVert := mkBMVert (Vec 0 0 0) true.

Definition segment_v1 (len : R) : BMVert := mkBMVert (Vec len 0 0) true.

(** An untransformed mesh object whose only vertices, both selected, are
    (0, 0, 0) and (len, 0, 0) in local coordinates. *)
Definition segment (len : R) (parent : option Object) : Object :=
  mkObject MESH origin identity3 ones parent
           (mkBMesh [segment_v0; segment_v1 len]).

(** Edit Mode on [obj]. *)
Definition edit (obj : Object) : Context := mkContext (Some obj) EDIT_MESH.

(** A parent squashed flat along its local Z axis: scale (1, 1, 0). *)
Definition flat_parent : Object :=
  mkObject EMPTY origin identity3 (Vec 1 1 0) None (mkBMesh []).

(** An untransformed mesh object with the given vertices. *)
Definition mesh_object (vs : list BMVert) : Object :=
  mkObject MESH origin identity3 ones None (mkBMesh vs).

(** The decimal numeral of a count. *)
Definition decimal (n : nat) : string :=
  NilEmpty.string_of_uint (Nat.to_uint n).

(** The message of report [r] contains [needle]. *)
Definition mentions (needle : string) (r : Report) : bool :=
  match index 0 needle (snd r) with
  | Some _ => true
  | None => false
  end.

(* ================================================================= *)
(** ** Algebra of vectors and matrices *)

Lemma Vector_eq (a b : Vector) :
  vx a = vx b -> vy a = vy b -> vz a = vz b -> a = b.
Proof. destruct a, b; simpl; intros; subst; reflexivity. Qed.

(** Componentwise equality of concrete vector expressions. *)
Ltac vec_eq :=
  apply Vector_eq;
  cbv [Vector_add Vector_sub Vector_mul Matrix3_apply Matrix3_mul
       Matrix3_scale_columns Matrix3_div dot col0 col1 col2 matmul_vec matmul
       LocRotScale to_translation linear translation row0 row1 row2 vx vy vz
       identity3 origin ones].

Lemma dot_self_nonneg (a : Vector) : 0 <= dot a a.
Proof. unfold dot. pose proof (Rle_0_sqr (vx a)); pose proof (Rle_0_sqr (vy a));
  pose proof (Rle_0_sqr (vz a)). unfold Rsqr in *. lra. Qed.

Lemma Vector_length_nonneg (a : Vector) : 0 <= Vector_length a.
Proof. apply sqrt_pos. Qed.

Lemma Vector_length_eq_0 (a : Vector) : Vector_length a = 0 -> a = Vec 0 0 0.
Proof.
  intros H. apply sqrt_eq_0 in H; [|apply dot_self_nonneg].
  unfold dot in H.
  pose proof (Rle_0_sqr (vx a)) as Hx; pose proof (Rle_0_sqr (vy a)) as Hy;
    pose proof (Rle_0_sqr (vz a)) as Hz. unfold Rsqr in *.
  apply Vector_eq; simpl; apply Rsqr_0_uniq; unfold Rsqr; lra.
Qed.

Lemma Vector_length_sub_eq_0 (a b : Vector) :
  Vector_length (a - b) = 0 <-> a = b.
Proof.
  split.
  - intros H. apply Vector_length_eq_0 in H.
    injection H as Hx Hy Hz. apply Vector_eq; lra.
  - intros ->. unfold Vector_length, dot, Vector_sub; simpl.
    replace (_ + _) with 0 by ring. apply sqrt_0.
Qed.

Lemma Vector_length_mul (a : Vector) (s : R) :
  0 <= s -> Vector_length (a * s) = Vector_length a * s.
Proof.
  intros Hs. unfold Vector_length.
  replace (dot (a * s) (a * s)) with (dot a a * (s * s))
    by (unfold dot, Vector_mul; simpl; ring).
  rewrite sqrt_mult; [|apply dot_self_nonneg|nra].
  rewrite sqrt_square by exact Hs. reflexivity.
Qed.

Lemma matmul_vec_sub (m : Matrix) (a b : Vector) :
  ((m @ a) - (m @ b))%vec = Matrix3_apply (linear m) (a - b).
Proof. vec_eq; ring. Qed.

Lemma matmul_vec_matmul (m n : Matrix) (v : Vector) :
  (matmul m n @ v)%vec = (m @ (n @ v))%vec.
Proof. vec_eq; ring. Qed.

Lemma LocRotScale_rescale (loc : Vector) (rot : Matrix3) (sc v : Vector) (s : R) :
  Matrix3_apply (linear (LocRotScale loc rot (sc * s))) v
  = (Matrix3_apply (linear (LocRotScale loc rot sc)) v * s)%vec.
Proof. vec_eq; ring. Qed.

Lemma adjugate3_correct (m : Matrix3) (v : Vector) :
  Matrix3_apply m (Matrix3_apply (adjugate3 m) v) = (v * determinant3 m)%vec.
Proof.
  destruct m as [[a b c] [d e f] [g h i]], v as [p q r].
  unfold adjugate3, determinant3; simpl. vec_eq; ring.
Qed.

Lemma inverted_Some (m mi : Matrix) :
  inverted m = Some mi -> determinant m <> 0.
Proof. unfold inverted. destruct (Req_dec_T _ _); [discriminate|auto]. Qed.

Lemma inverted_None (m : Matrix) :
  inverted m = None <-> determinant m = 0.
Proof. unfold inverted. destruct (Req_dec_T _ _); split; congruence. Qed.

Lemma inverted_exists (m : Matrix) :
  determinant m <> 0 -> exists mi, inverted m = Some mi.
Proof. unfold inverted. destruct (Req_dec_T _ _); [tauto|eauto]. Qed.

(** A matrix times its inverse maps every point to itself. *)
Lemma inverted_sound (m mi : Matrix) (w : Vector) :
  inverted m = Some mi -> (m @ (mi @ w))%vec = w.
Proof.
  unfold inverted. destruct (Req_dec_T _ _) as [|Hd]; [discriminate|].
  intros [= <-]. unfold determinant in *.
  set (k := determinant3 (linear m)) in *.
  pose proof (adjugate3_correct (linear m) w) as Hw.
  pose proof (adjugate3_correct (linear m) (translation m)) as Ht.
  fold k in Hw, Ht.
  destruct m as [l t]; simpl in *.
  set (A := adjugate3 l) in *.
  assert (E : forall u, Matrix3_apply l (Matrix3_apply (Matrix3_div A k) u)
                   = (Matrix3_apply l (Matrix3_apply A u) * / k)%vec).
  { intros u. vec_eq; field; exact Hd. }
  unfold matmul_vec; simpl.
  replace (Matrix3_apply l
             (Matrix3_apply (Matrix3_div A k) w
              + Matrix3_apply (Matrix3_div A k) t * -1))
    with ((Matrix3_apply l (Matrix3_apply (Matrix3_div A k) w)
           - Matrix3_apply l (Matrix3_apply (Matrix3_div A k) t))%vec)
    by (vec_eq; ring).
  rewrite !E, Hw, Ht. vec_eq; field; exact Hd.
Qed.

(* ================================================================= *)
(** ** The world transform after rescaling and relocating *)

Lemma world_co_set_location (obj : Object) (l : Vector) (v : BMVert) :
  world_co (set_location obj l) v
  = (Matrix3_apply (linear (matrix_world obj)) (co v)
     + match parent obj with
       | None => l
       | Some p => matrix_world p @ l
       end)%vec.
Proof.
  destruct obj as [ty loc rot sc [p|] dat]; unfold world_co; simpl.
  - generalize (matrix_world p); intros P. vec_eq; ring.
  - vec_eq; ring.
Qed.

Lemma matrix_world_set_location_linear (obj : Object) (l : Vector) :
  linear (matrix_world (set_location obj l)) = linear (matrix_world obj).
Proof. destruct obj as [ty loc rot sc [p|] dat]; reflexivity. Qed.

(* ================================================================= *)
(** ** The paths through [execute] *)

Lemma ObjectType_eqb_eq (a b : ObjectType) : ObjectType_eqb a b = true <-> a = b.
Proof. destruct a, b; simpl; split; congruence. Qed.

Lemma Mode_eqb_eq (a b : Mode) : Mode_eqb a b = true <-> a = b.
Proof. destruct a, b; simpl; split; congruence. Qed.

Lemma world_distance_nonneg (obj : Object) (sv0 sv1 : BMVert) :
  0 <= world_distance obj sv0 sv1.
Proof. apply Vector_length_nonneg. Qed.

Lemma world_distance_eq_0 (obj : Object) (sv0 sv1 : BMVert) :
  world_distance obj sv0 sv1 = 0 <-> world_co obj sv0 = world_co obj sv1.
Proof. apply Vector_length_sub_eq_0. Qed.

Lemma world_distance_pos (obj : Object) (sv0 sv1 : BMVert) :
  world_co obj sv0 <> world_co obj sv1 -> 0 < world_distance obj sv0 sv1.
Proof.
  intros Hne. pose proof (world_distance_nonneg obj sv0 sv1) as H0.
  destruct (Req_dec_T (world_distance obj sv0 sv1) 0) as [E|E]; [|lra].
  apply world_distance_eq_0 in E. contradiction.
Qed.

Lemma effective_target_distance_pos (self : Operator) :
  0 < effective_target_distance self.
Proof.
  unfold effective_target_distance, clamp_target, min_target_distance.
  destruct (Rle_dec _ _); simpl; lra.
Qed.

Lemma clamp_target_eta (self : Operator) :
  clamp_target self = (fst (clamp_target self), effective_target_distance self).
Proof. unfold effective_target_distance. destruct (clamp_target self); reflexivity. Qed.

(** Opens [execute] up to the distance check. *)
Ltac enter_execute H :=
  lazymatch type of H with
  | selects _ ?obj ?sv0 ?sv1 =>
    let Ha := fresh "Ha" in let Ht := fresh "Ht" in
    let Hm := fresh "Hm" in let Hsel := fresh "Hsel" in
    destruct H as (Ha & Ht & Hm & Hsel);
    unfold execute; rewrite Ha, Ht, Hm; simpl;
    unfold from_edit_mesh; rewrite Hsel; simpl;
    fold (world_co obj sv0); fold (world_co obj sv1);
    fold (world_distance obj sv0 sv1)
  end.

(** Opens [execute] up to the no-op check. *)
Ltac enter_rescale H :=
  lazymatch type of H with
  | passes_checks _ ?obj ?sv0 ?sv1 =>
    let Hs := fresh "Hs" in let Hne := fresh "Hne" in
    let Hd := fresh "Hd" in
    destruct H as (Hs & Hne);
    pose proof (world_distance_pos _ _ _ Hne) as Hd;
    enter_execute Hs;
    destruct (Req_dec_T (world_distance obj sv0 sv1) 0) as [?|_]; [lra|];
    rewrite clamp_target_eta; unfold truediv;
    destruct (Req_dec_T (world_distance obj sv0 sv1) 0) as [?|_]; [lra|];
    lazymatch goal with
    | |- context [effective_target_distance ?self] =>
      fold (scale_factor self obj sv0 sv1)
    end
  end.

Lemma execute_no_object (self : Operator) (context : Context) :
  active_object context = None ->
  execute self context = cancel context "Active object is not a mesh".
Proof. intros H. unfold execute. rewrite H. reflexivity. Qed.

Lemma execute_not_mesh (self : Operator) (context : Context) (obj : Object) :
  active_object context = Some obj -> type obj <> MESH ->
  execute self context = cancel context "Active object is not a mesh".
Proof.
  intros Ha Ht. unfold execute. rewrite Ha.
  destruct (ObjectType_eqb (type obj) MESH) eqn:E; [|reflexivity].
  apply ObjectType_eqb_eq in E. contradiction.
Qed.

Lemma execute_wrong_mode (self : Operator) (context : Context) (obj : Object) :
  active_object context = Some obj -> type obj = MESH ->
  mode context <> EDIT_MESH ->
  execute self context = cancel context "Must be in Edit Mode".
Proof.
  intros Ha Ht Hm. unfold execute. rewrite Ha, Ht. simpl.
  destruct (Mode_eqb (mode context) EDIT_MESH) eqn:E; [|reflexivity].
  apply Mode_eqb_eq in E. contradiction.
Qed.

Lemma execute_bad_count (self : Operator) (context : Context) (obj : Object) :
  active_object context = Some obj -> type obj = MESH ->
  mode context = EDIT_MESH ->
  List.length (filter select (verts (data obj))) <> 2%nat ->
  execute self context = cancel context "Select exactly two vertices".
Proof.
  intros Ha Ht Hm Hn. unfold execute. rewrite Ha, Ht, Hm. simpl.
  unfold from_edit_mesh.
  destruct (Nat.eqb_spec (List.length (filter select (verts (data obj)))) 2);
    [contradiction|reflexivity].
Qed.

Lemma execute_coincident (self : Operator) (context : Context) (obj : Object)
      (sv0 sv1 : BMVert) :
  selects context obj sv0 sv1 -> world_co obj sv0 = world_co obj sv1 ->
  execute self context
  = cancel context "Selected vertices are at the same location".
Proof.
  intros H Heq. apply world_distance_eq_0 in Heq. enter_execute H.
  destruct (Req_dec_T _ _); [reflexivity|contradiction].
Qed.

Lemma execute_no_op (self : Operator) (context : Context) (obj : Object)
      (sv0 sv1 : BMVert) :
  passes_checks context obj sv0 sv1 ->
  Rabs (scale_factor self obj sv0 sv1 - 1) < 1e-6 ->
  execute self context
  = mkOutcome (Return FINISHED)
              (fst (clamp_target self) ++ [(INFO, "No scaling needed")])
              context.
Proof.
  intros H Hno. enter_rescale H.
  destruct (Rlt_dec _ _); [reflexivity|contradiction].
Qed.

Lemma execute_root (self : Operator) (context : Context) (obj : Object)
      (sv0 sv1 : BMVert) :
  passes_checks context obj sv0 sv1 ->
  ~ Rabs (scale_factor self obj sv0 sv1 - 1) < 1e-6 ->
  parent obj = None ->
  execute self context
  = let s := scale_factor self obj sv0 sv1 in
    mkOutcome (Return FINISHED)
      (fst (clamp_target self) ++ [(INFO, "Object scaled successfully")])
      (with_active_object context
         (set_location (set_scale obj (scale obj * s))
                       (new_world_loc obj sv0 sv1 s))).
Proof.
  intros H Hno Hp. enter_rescale H.
  destruct (Rlt_dec _ _); [contradiction|]. rewrite Hp. reflexivity.
Qed.

Lemma execute_child (self : Operator) (context : Context) (obj p : Object)
      (inv : Matrix) (sv0 sv1 : BMVert) :
  passes_checks context obj sv0 sv1 ->
  ~ Rabs (scale_factor self obj sv0 sv1 - 1) < 1e-6 ->
  parent obj = Some p -> inverted (matrix_world p) = Some inv ->
  execute self context
  = let s := scale_factor self obj sv0 sv1 in
    mkOutcome (Return FINISHED)
      (fst (clamp_target self) ++ [(INFO, "Object scaled successfully")])
      (with_active_object context
         (set_location (set_scale obj (scale obj * s))
                       (inv @ new_world_loc obj sv0 sv1 s))).
Proof.
  intros H Hno Hp Hi. enter_rescale H.
  destruct (Rlt_dec _ _); [contradiction|]. rewrite Hp, Hi. reflexivity.
Qed.

Lemma execute_child_singular (self : Operator) (context : Context)
      (obj p : Object) (sv0 sv1 : BMVert) :
  passes_checks context obj sv0 sv1 ->
  ~ Rabs (scale_factor self obj sv0 sv1 - 1) < 1e-6 ->
  parent obj = Some p -> inverted (matrix_world p) = None ->
  execute self context
  = let s := scale_factor self obj sv0 sv1 in
    mkOutcome (Raise ValueError) (fst (clamp_target self))
      (with_active_object context (set_scale obj (scale obj * s))).
Proof.
  intros H Hno Hp Hi. enter_rescale H.
  destruct (Rlt_dec _ _); [contradiction|]. rewrite Hp, Hi. reflexivity.
Qed.

(* ================================================================= *)
(** ** Rescaling is a homothety of the world positions *)

Lemma linear_set_scale (obj : Object) (s : R) (u : Vector) :
  Matrix3_apply (linear (matrix_world (set_scale obj (scale obj * s)))) u
  = (Matrix3_apply (linear (matrix_world obj)) u * s)%vec.
Proof.
  destruct obj as [ty loc rot sc [p|] dat]; simpl.
  - generalize (matrix_world p); intros P. vec_eq; ring.
  - vec_eq; ring.
Qed.

Lemma world_co_split (obj : Object) (v : BMVert) :
  world_co obj v
  = (Matrix3_apply (linear (matrix_world obj)) (co v)
     + to_translation (matrix_world obj))%vec.
Proof. reflexivity. Qed.

(** With the scale multiplied by [s] and a location whose world image is
    [c + (origin - c) * s], every vertex moves along the ray from [c]
    through its old world position, by the ratio [s]. *)
Lemma world_co_homothety (obj : Object) (s : R) (l c : Vector) (v : BMVert) :
  match parent obj with
  | None => l
  | Some p => (matrix_world p @ l)%vec
  end = (c + (to_translation (matrix_world obj) - c) * s)%vec ->
  world_co (set_location (set_scale obj (scale obj * s)) l) v
  = (c + (world_co obj v - c) * s)%vec.
Proof.
  intros Hl. rewrite world_co_set_location, linear_set_scale.
  replace (parent (set_scale obj (scale obj * s))) with (parent obj)
    by (destruct obj; reflexivity).
  rewrite Hl, world_co_split. vec_eq; ring.
Qed.

Lemma homothety_midpoint (a b : Vector) (s : R) :
  let c := ((a + b) * 0.5)%vec in
  (((c + (a - c) * s) + (c + (b - c) * s)) * 0.5)%vec = c.
Proof.
  intros c; subst c. vec_eq; replace 0.5 with (/ 2) by lra; field.
Qed.

(** The state a completed rescale leaves behind, for every parent
    configuration that lets the call return. *)
Lemma execute_rescale (self : Operator) (context : Context) (obj : Object)
      (sv0 sv1 : BMVert) :
  passes_checks context obj sv0 sv1 ->
  ~ Rabs (scale_factor self obj sv0 sv1 - 1) < 1e-6 ->
  parent_invertible obj ->
  exists obj',
    execute self context
    = mkOutcome (Return FINISHED)
        (fst (clamp_target self) ++ [(INFO, "Object scaled successfully")])
        (with_active_object context obj') /\
    scale obj' = (scale obj * scale_factor self obj sv0 sv1)%vec /\
    rotation obj' = rotation obj /\ parent obj' = parent obj /\
    data obj' = data obj /\ type obj' = type obj /\
    forall v, world_co obj' v
              = (world_midpoint obj sv0 sv1
                 + (world_co obj v - world_midpoint obj sv0 sv1)
                   * scale_factor self obj sv0 sv1)%vec.
Proof.
  intros H Hno Hp. unfold parent_invertible in Hp.
  destruct (parent obj) as [p|] eqn:Ep.
  - destruct (inverted_exists _ Hp) as [inv Hi].
    eexists. split; [apply (execute_child _ _ _ _ _ _ _ H Hno Ep Hi)|].
    cbv zeta. repeat split; try (simpl; assumption);
      try (destruct obj; reflexivity).
    intros v. apply world_co_homothety. rewrite Ep.
    rewrite (inverted_sound _ _ _ Hi). reflexivity.
  - eexists. split; [apply (execute_root _ _ _ _ _ H Hno Ep)|].
    cbv zeta. repeat split; try (simpl; assumption);
      try (destruct obj; reflexivity).
    intros v. apply world_co_homothety. rewrite Ep. reflexivity.
Qed.

(* ================================================================= *)
(** ** The concrete scenes *)

Lemma Vector_length_x (a : R) : Vector_length (Vec a 0 0) = Rabs a.
Proof.
  unfold Vector_length, dot; simpl.
  replace (a * a + 0 * 0 + 0 * 0) with (Rsqr a) by (unfold Rsqr; ring).
  apply sqrt_Rsqr_abs.
Qed.

Lemma world_co_mesh_object (vs : list BMVert) (v : BMVert) :
  world_co (mesh_object vs) v = co v.
Proof. unfold world_co; simpl. vec_eq; ring. Qed.

Lemma world_co_segment_root (len : R) (v : BMVert) :
  world_co (segment len None) v = co v.
Proof. unfold world_co; simpl. vec_eq; ring. Qed.

Lemma world_co_segment_flat (len : R) (v : BMVert) :
  world_co (segment len (Some flat_parent)) v = Vec (vx (co v)) (vy (co v)) 0.
Proof. unfold world_co, segment, flat_parent; simpl. vec_eq; ring. Qed.

Lemma world_distance_segment_root (len : R) :
  0 <= len ->
  world_distance (segment len None) segment_v0 (segment_v1 len) = len.
Proof.
  intros H. unfold world_distance. rewrite !world_co_segment_root. simpl.
  replace (Vec 0 0 0 - Vec len 0 0)%vec with (Vec (- len) 0 0) by (vec_eq; ring).
  rewrite Vector_length_x, Rabs_Ropp. apply Rabs_pos_eq, H.
Qed.

Lemma world_distance_segment_flat (len : R) :
  0 <= len ->
  world_distance (segment len (Some flat_parent)) segment_v0 (segment_v1 len)
  = len.
Proof.
  intros H. unfold world_distance. rewrite !world_co_segment_flat. simpl.
  replace (Vec 0 0 0 - Vec len 0 0)%vec with (Vec (- len) 0 0) by (vec_eq; ring).
  rewrite Vector_length_x, Rabs_Ropp. apply Rabs_pos_eq, H.
Qed.

Lemma segment_passes_checks (len : R) (parent : option Object) :
  len <> 0 ->
  parent = None \/ parent = Some flat_parent ->
  passes_checks (edit (segment len parent)) (segment len parent)
                segment_v0 (segment_v1 len).
Proof.
  intros Hlen Hp. split.
  - repeat split.
  - destruct Hp as [-> | ->];
      rewrite ?world_co_segment_root, ?world_co_segment_flat; simpl;
      intros [= E]; lra.
Qed.

Lemma flat_parent_singular : inverted (matrix_world flat_parent) = None.
Proof.
  apply inverted_None. unfold determinant, determinant3; simpl. ring.
Qed.

Lemma clamp_target_positive (t : R) :
  0 < t -> clamp_target (mkOperator t) = ([], t).
Proof.
  intros H. unfold clamp_target; simpl.
  destruct (Rle_dec t 0); [lra|reflexivity].
Qed.

Lemma clamp_target_nonpositive (t : R) :
  t <= 0 ->
  clamp_target (mkOperator t)
  = ([(WARNING, "Target distance cannot be 0; using minimum value 0.000001")],
     1e-6).
Proof.
  intros H. unfold clamp_target; simpl.
  destruct (Rle_dec t 0); [reflexivity|lra].
Qed.

(** The scenario of the specification: vertices (0,0,0) and (2,0,0) of an
    untransformed object, target 1: the scale becomes (0.5, 0.5, 0.5) and
    the location (0.5, 0, 0). *)
Example scenario_halve :
  exists obj',
    execute (mkOperator 1) (edit (segment 2 None))
    = mkOutcome (Return FINISHED) [(INFO, "Object scaled successfully")]
                (edit obj') /\
    scale obj' = Vec 0.5 0.5 0.5 /\ location obj' = Vec 0.5 0 0.
Proof.
  pose proof (segment_passes_checks 2 None ltac:(lra) (or_introl eq_refl)) as H.
  assert (Hs : scale_factor (mkOperator 1) (segment 2 None)
                            segment_v0 (segment_v1 2) = / 2).
  { unfold scale_factor, effective_target_distance.
    rewrite clamp_target_positive by lra.
    rewrite world_distance_segment_root by lra. simpl. lra. }
  eexists. split.
  - rewrite (execute_root _ _ _ _ _ H); [| rewrite Hs | reflexivity].
    + cbv zeta. rewrite clamp_target_positive by lra. reflexivity.
    + intros Hc. unfold Rabs in Hc. destruct (Rcase_abs _) in Hc; lra.
  - simpl. rewrite Hs. split.
    + vec_eq; lra.
    + unfold new_world_loc, world_midpoint. rewrite !world_co_segment_root.
      simpl. vec_eq; lra.
Qed.

(** Same scene, target 2 (the current distance): nothing is changed. *)
Example scenario_same :
  execute (mkOperator 2) (edit (segment 2 None))
  = mkOutcome (Return FINISHED) [(INFO, "No scaling needed")]
              (edit (segment 2 None)).
Proof.
  pose proof (segment_passes_checks 2 None ltac:(lra) (or_introl eq_refl)) as H.
  rewrite (execute_no_op _ _ _ _ _ H).
  - rewrite clamp_target_positive by lra. reflexivity.
  - unfold scale_factor, effective_target_distance.
    rewrite clamp_target_positive by lra.
    rewrite world_distance_segment_root by lra. simpl.
    replace (2 / 2 - 1) with 0 by lra. rewrite Rabs_R0. lra.
Qed.

(* ================================================================= *)
(** ** What a call that passes the checks leaves behind *)

Lemma scale_factor_positive_target (self : Operator) (obj : Object)
      (sv0 sv1 : BMVert) :
  0 < target_distance self ->
  scale_factor self obj sv0 sv1
  = target_distance self / world_distance obj sv0 sv1.
Proof.
  intros H. unfold scale_factor, effective_target_distance, clamp_target.
  destruct (Rle_dec _ _); [lra|reflexivity].
Qed.

Lemma parent_invertible_dec (obj : Object) :
  parent_invertible obj \/
  exists p, parent obj = Some p /\ inverted (matrix_world p) = None.
Proof.
  unfold parent_invertible. destruct (parent obj) as [p|]; [|left; exact I].
  destruct (Req_dec_T (determinant (matrix_world p)) 0) as [E|E].
  - right. exists p. split; [reflexivity|]. apply inverted_None, E.
  - left. exact E.
Qed.

(* ================================================================= *)
(** ** C1: the distance reached *)




(* ================================================================= *)
(** ** C2: the pivot *)

(** When the parent's world matrix can be inverted (or there is no parent),
    the midpoint of the two vertices is the same point before and after. *)
Lemma pivot_fixed_when_parent_invertible (self : Operator) (context : Context)
      (obj : Object) (sv0 sv1 : BMVert) :
  passes_checks context obj sv0 sv1 ->
  parent_invertible obj ->
  completion (execute self context) = Return FINISHED /\
  exists obj',
    object_after (execute self context) = Some obj' /\
    world_midpoint obj' sv0 sv1 = world_midpoint obj sv0 sv1.
Proof.
  intros H Hp.
  destruct (Rlt_dec (Rabs (scale_factor self obj sv0 sv1 - 1)) 1e-6)
    as [Hno | Hno].
  - rewrite (execute_no_op _ _ _ _ _ H Hno). split; [reflexivity|].
    exists obj. split; [apply H | reflexivity].
  - destruct (execute_rescale _ _ _ _ _ H Hno Hp)
      as (obj' & -> & _ & _ & _ & _ & _ & Hco).
    split; [reflexivity|]. exists obj'. split; [reflexivity|].
    unfold world_midpoint at 1. rewrite !Hco.
    apply homothety_midpoint.
Qed.

(** C2 at a child of a flat parent.  The object has vertices (0,0,0) and
    (2,0,0), its parent has scale (1,1,0); the requested distance is 1.
    All four checks pass; line 80 halves the scale, then
    [obj.parent.matrix_world.inverted()] on line 84 raises [ValueError]
    and the location is never written.  The midpoint of the two vertices,
    (1,0,0) before the call, is (0.5,0,0) after it. *)
Theorem C2_pivot_moves_under_flat_parent :
  let obj := segment 2 (Some flat_parent) in
  let out := execute (mkOperator 1) (edit obj) in
  passes_checks (edit obj) obj segment_v0 (segment_v1 2) /\
  completion out = Raise ValueError /\
  exists obj',
    object_after out = Some obj' /\
    world_midpoint obj segment_v0 (segment_v1 2) = Vec 1 0 0 /\
    world_midpoint obj' segment_v0 (segment_v1 2) = Vec 0.5 0 0.
Proof.
  cbv zeta.
  pose proof (segment_passes_checks 2 (Some flat_parent) ltac:(lra)
                (or_intror eq_refl)) as H.
  assert (Hs : scale_factor (mkOperator 1) (segment 2 (Some flat_parent))
                            segment_v0 (segment_v1 2) = / 2).
  { rewrite scale_factor_positive_target by (simpl; lra).
    rewrite world_distance_segment_flat by lra. simpl. lra. }
  split; [exact H|].
  rewrite (execute_child_singular _ _ _ flat_parent _ _ H);
    [| rewrite Hs; rewrite Rabs_left; lra | reflexivity
     | apply flat_parent_singular ].
  cbv zeta. rewrite Hs. split; [reflexivity|].
  eexists. split; [reflexivity|]. split.
  - unfold world_midpoint. rewrite !world_co_segment_flat. simpl.
    vec_eq; lra.
  - unfold world_midpoint, world_co, segment, flat_parent. simpl.
    vec_eq; lra.
Qed.

(* ================================================================= *)
(** ** C3: the no-op window *)

(** C3: a call that passes the four checks and computes a scale factor
    within 1e-6 of 1 returns FINISHED, reports the note "No scaling
    needed", reports no error, and leaves the context, and with it the
    object and its scale and location, exactly as they were. *)
Theorem C3_no_op_changes_nothing (self : Operator) (context : Context)
        (obj : Object) (sv0 sv1 : BMVert) :
  passes_checks context obj sv0 sv1 ->
  Rabs (scale_factor self obj sv0 sv1 - 1) < 1e-6 ->
  let out := execute self context in
  completion out = Return FINISHED /\
  In (INFO, "No scaling needed") (reports out) /\
  ~ has_report ERROR out /\
  scene out = context /\
  exists obj',
    object_after out = Some obj' /\
    scale obj' = scale obj /\ location obj' = location obj.
Proof.
  intros H Hno. cbv zeta. rewrite (execute_no_op _ _ _ _ _ H Hno). simpl.
  repeat split.
  - apply in_or_app. right. left. reflexivity.
  - intros (m & Hin). simpl in Hin. apply in_app_or in Hin.
    destruct Hin as [Hin | [Hin | []]]; [|discriminate].
    unfold clamp_target in Hin. destruct (Rle_dec _ _); simpl in Hin.
    + destruct Hin as [Hin | []]. discriminate.
    + contradiction.
  - exists obj. unfold object_after; simpl. repeat split. apply H.
Qed.

Lemma scale_factor_segment_root (t len : R) :
  0 < t -> 0 < len ->
  scale_factor (mkOperator t) (segment len None) segment_v0 (segment_v1 len)
  = t / len.
Proof.
  intros Ht Hl. rewrite scale_factor_positive_target by (simpl; lra).
  rewrite world_distance_segment_root by lra. reflexivity.
Qed.

Lemma C3_no_op_changes_nothing_witness :
  let context := edit (segment 2 None) in
  let out := execute (mkOperator 2) context in
  completion out = Return FINISHED /\
  In (INFO, "No scaling needed") (reports out) /\
  ~ has_report ERROR out /\
  scene out = context /\
  exists obj',
    object_after out = Some obj' /\
    scale obj' = scale (segment 2 None) /\
    location obj' = location (segment 2 None).
Proof.
  apply (C3_no_op_changes_nothing (mkOperator 2) (edit (segment 2 None))
           (segment 2 None) segment_v0 (segment_v1 2)).
  - apply segment_passes_checks; [lra | left; reflexivity].
  - rewrite scale_factor_segment_root by lra.
    replace (2 / 2 - 1) with 0 by lra. rewrite Rabs_R0. lra.
Defined.

(* ================================================================= *)
(** ** Every call either cancels or passes the checks *)

Lemma length_two {A : Type} (l : list A) :
  List.length l = 2%nat -> exists a b, l = [a; b].
Proof.
  destruct l as [|a [|b [|c l]]]; simpl; try discriminate.
  intros _. exists a, b. reflexivity.
Qed.

Lemma execute_cases (self : Operator) (context : Context) :
  (exists message, execute self context = cancel context message) \/
  (exists obj sv0 sv1, passes_checks context obj sv0 sv1).
Proof.
  destruct (active_object context) as [obj|] eqn:Ha.
  2:{ left. eexists. apply execute_no_object, Ha. }
  destruct (ObjectType_eqb (type obj) MESH) eqn:Et.
  2:{ left. eexists. apply (execute_not_mesh _ _ _ Ha).
      intros C. apply ObjectType_eqb_eq in C. congruence. }
  apply ObjectType_eqb_eq in Et.
  destruct (Mode_eqb (mode context) EDIT_MESH) eqn:Em.
  2:{ left. eexists. apply (execute_wrong_mode _ _ _ Ha Et).
      intros C. apply Mode_eqb_eq in C. congruence. }
  apply Mode_eqb_eq in Em.
  destruct (Nat.eq_dec (List.length (filter select (verts (data obj)))) 2)
    as [En | En].
  2:{ left. eexists. apply (execute_bad_count _ _ _ Ha Et Em En). }
  destruct (length_two _ En) as (sv0 & sv1 & Hsel).
  assert (Hs : selects context obj sv0 sv1) by (repeat split; assumption).
  destruct (Req_dec_T (world_distance obj sv0 sv1) 0) as [E0 | E0].
  - left. eexists. apply (execute_coincident _ _ _ _ _ Hs).
    apply world_distance_eq_0, E0.
  - right. exists obj, sv0, sv1. split; [exact Hs|].
    intros C. apply E0, world_distance_eq_0, C.
Qed.

Lemma passes_checks_unique (context : Context) (obj obj' : Object)
      (sv0 sv1 sv0' sv1' : BMVert) :
  passes_checks context obj sv0 sv1 ->
  passes_checks context obj' sv0' sv1' ->
  obj' = obj /\ sv0' = sv0 /\ sv1' = sv1.
Proof.
  intros ((Ha & _ & _ & Hs) & _) ((Ha' & _ & _ & Hs') & _).
  assert (obj' = obj) by congruence. subst obj'.
  rewrite Hs in Hs'. injection Hs' as -> ->. repeat split.
Qed.

(** A call that passes the checks never cancels. *)
Lemma passes_checks_not_cancelled (self : Operator) (context : Context)
      (obj : Object) (sv0 sv1 : BMVert) :
  passes_checks context obj sv0 sv1 ->
  completion (execute self context) <> Return CANCELLED /\
  ~ has_report ERROR (execute self context).
Proof.
  intros H.
  assert (Hw : forall m, ~ In (ERROR, m) (fst (clamp_target self))).
  { intros m. unfold clamp_target. destruct (Rle_dec _ _); simpl.
    - intros [C | []]. discriminate.
    - tauto. }
  assert (Hi : forall m i, ~ In (ERROR, m) (fst (clamp_target self) ++ [(INFO, i)])).
  { intros m i C. apply in_app_or in C. destruct C as [C | [C | []]].
    - apply (Hw _ C).
    - discriminate. }
  destruct (Rlt_dec (Rabs (scale_factor self obj sv0 sv1 - 1)) 1e-6)
    as [Hno | Hno].
  - rewrite (execute_no_op _ _ _ _ _ H Hno). split; [discriminate|].
    intros (m & C). apply (Hi _ _ C).
  - destruct (parent_invertible_dec obj) as [Hp | (p & Ep & Hinv)].
    + destruct (execute_rescale _ _ _ _ _ H Hno Hp) as (obj' & -> & _).
      split; [discriminate|]. intros (m & C). apply (Hi _ _ C).
    + rewrite (execute_child_singular _ _ _ _ _ _ H Hno Ep Hinv). cbv zeta.
      split; [discriminate|]. intros (m & C). apply (Hw _ C).
Qed.

(* ================================================================= *)
(** ** C5: failures and mutation *)

(** Every call that cancels reports one error and leaves the context, and
    so the object with its scale and location, untouched. *)
Lemma cancelled_leaves_scene (self : Operator) (context : Context) :
  completion (execute self context) = Return CANCELLED ->
  scene (execute self context) = context /\
  exists message, reports (execute self context) = [(ERROR, message)].
Proof.
  intros Hc.
  destruct (execute_cases self context) as [(m & E) | (obj & sv0 & sv1 & H)].
  - rewrite E. split; [reflexivity|]. exists m. reflexivity.
  - destruct (passes_checks_not_cancelled self _ _ _ _ H) as [C _].
    contradiction.
Qed.

(** The four failing checks, one by one. *)
Lemma failed_check_cancels (self : Operator) (context : Context) :
  (active_object context = None \/
   (exists obj, active_object context = Some obj /\ type obj <> MESH) \/
   (exists obj, active_object context = Some obj /\ type obj = MESH /\
                mode context <> EDIT_MESH) \/
   (exists obj, active_object context = Some obj /\ type obj = MESH /\
                mode context = EDIT_MESH /\
                List.length (filter select (verts (data obj))) <> 2%nat) \/
   (exists obj sv0 sv1, selects context obj sv0 sv1 /\
                        world_co obj sv0 = world_co obj sv1)) ->
  exists message, execute self context = cancel context message.
Proof.
  intros [H | [(obj & Ha & Ht) | [(obj & Ha & Ht & Hm)
         | [(obj & Ha & Ht & Hm & Hn) | (obj & sv0 & sv1 & Hs & He)]]]];
    eexists.
  - apply execute_no_object, H.
  - apply (execute_not_mesh _ _ _ Ha Ht).
  - apply (execute_wrong_mode _ _ _ Ha Ht Hm).
  - apply (execute_bad_count _ _ _ Ha Ht Hm Hn).
  - apply (execute_coincident _ _ _ _ _ Hs He).
Qed.

(** C5 at a child of a flat parent (the scene of C2): the call passes the
    four checks and does not complete successfully, it ends in the
    [ValueError] of line 84; yet the scale written on line 80 stays
    halved, while the location is the old one. *)
Theorem C5_scale_written_before_failure :
  let obj := segment 2 (Some flat_parent) in
  let out := execute (mkOperator 1) (edit obj) in
  completion out = Raise ValueError /\
  completion out <> Return FINISHED /\
  exists obj',
    object_after out = Some obj' /\
    scale obj = Vec 1 1 1 /\
    scale obj' = Vec 0.5 0.5 0.5 /\
    location obj' = location obj.
Proof.
  cbv zeta.
  pose proof (segment_passes_checks 2 (Some flat_parent) ltac:(lra)
                (or_intror eq_refl)) as H.
  assert (Hs : scale_factor (mkOperator 1) (segment 2 (Some flat_parent))
                            segment_v0 (segment_v1 2) = / 2).
  { rewrite scale_factor_positive_target by (simpl; lra).
    rewrite world_distance_segment_flat by lra. simpl. lra. }
  rewrite (execute_child_singular _ _ _ flat_parent _ _ H);
    [| rewrite Hs; rewrite Rabs_left; lra | reflexivity
     | apply flat_parent_singular ].
  cbv zeta. rewrite Hs. split; [reflexivity|]. split; [discriminate|].
  eexists. split; [reflexivity|]. simpl. repeat split.
  vec_eq; lra.
Qed.

(* ================================================================= *)
(** ** C6: the clamped target *)

(** C6 at a child of a flat parent (the scene of C2 and C5) with a stored
    target of 0.  The four checks pass, the target is clamped to 1e-6 and
    the warning is reported, but the call does not go on to succeed: line
    80 multiplies the scale by the factor, line 84 raises [ValueError],
    no success note is reported and the location is the old one. *)
Theorem C6_clamped_call_fails_under_flat_parent :
  let obj := segment 2 (Some flat_parent) in
  let self := mkOperator 0 in
  let out := execute self (edit obj) in
  passes_checks (edit obj) obj segment_v0 (segment_v1 2) /\
  target_distance self <= 0 /\
  effective_target_distance self = 1e-6 /\
  has_report WARNING out /\
  completion out = Raise ValueError /\
  completion out <> Return FINISHED /\
  ~ has_report INFO out /\
  exists obj',
    object_after out = Some obj' /\
    scale obj' <> scale obj /\
    location obj' = location obj.
Proof.
  cbv zeta.
  pose proof (segment_passes_checks 2 (Some flat_parent) ltac:(lra)
                (or_intror eq_refl)) as H.
  assert (Ec : clamp_target (mkOperator 0)
               = ([(WARNING,
                    "Target distance cannot be 0; using minimum value 0.000001")],
                  1e-6))
    by (apply clamp_target_nonpositive; lra).
  assert (Ee : effective_target_distance (mkOperator 0) = 1e-6)
    by (unfold effective_target_distance; rewrite Ec; reflexivity).
  assert (Hs : scale_factor (mkOperator 0) (segment 2 (Some flat_parent))
                            segment_v0 (segment_v1 2) = 1e-6 / 2).
  { unfold scale_factor. rewrite Ee.
    rewrite world_distance_segment_flat by lra. reflexivity. }
  split; [exact H|]. split; [simpl; lra|]. split; [exact Ee|].
  rewrite (execute_child_singular _ _ _ flat_parent _ _ H);
    [| rewrite Hs; rewrite Rabs_left; lra | reflexivity
     | apply flat_parent_singular ].
  cbv zeta. rewrite Hs, Ec. simpl.
  split; [eexists; left; reflexivity|].
  split; [reflexivity|]. split; [discriminate|].
  split; [intros (m & [C | []]); discriminate|].
  eexists. split; [reflexivity|]. simpl. split; [|reflexivity].
  unfold ones. intros [= C]. lra.
Qed.

(* ================================================================= *)
(** ** C7: the selection count *)

Lemma execute_three_selected :
  execute new_operator
          (edit (mesh_object [segment_v0; segment_v1 1; segment_v1 2]))
  = cancel (edit (mesh_object [segment_v0; segment_v1 1; segment_v1 2]))
           "Select exactly two vertices".
Proof.
  apply (execute_bad_count
           _ _ (mesh_object [segment_v0; segment_v1 1; segment_v1 2]));
    try reflexivity.
  simpl. lia.
Qed.

(** C7, as stated, fails: with three selected vertices the call cancels,
    but its only report is the fixed text "Select exactly two vertices",
    and the count 3 occurs nowhere in it. *)
Lemma C7_counterexample :
  let obj := mesh_object [segment_v0; segment_v1 1; segment_v1 2] in
  let out := execute new_operator (edit obj) in
  type obj = MESH /\ mode (edit obj) = EDIT_MESH /\
  List.length (filter select (verts (data obj))) = 3%nat /\
  completion out = Return CANCELLED /\
  reports out = [(ERROR, "Select exactly two vertices")] /\
  existsb (mentions (decimal 3)) (reports out) = false.
Proof.
  cbv zeta. rewrite execute_three_selected. repeat split.
Qed.

(** C7 (amended): on a mesh in Edit Mode whose number of selected vertices
    is not two, the call returns CANCELLED, its only report is the error
    "Select exactly two vertices", the same text for every count, and the
    context is left untouched. *)
Theorem C7_wrong_selection_count (self : Operator) (context : Context)
        (obj : Object) :
  active_object context = Some obj ->
  type obj = MESH ->
  mode context = EDIT_MESH ->
  List.length (filter select (verts (data obj))) <> 2%nat ->
  let out := execute self context in
  completion out = Return CANCELLED /\
  reports out = [(ERROR, "Select exactly two vertices")] /\
  scene out = context.
Proof.
  intros Ha Ht Hm Hn. cbv zeta.
  rewrite (execute_bad_count _ _ _ Ha Ht Hm Hn). repeat split.
Qed.

Lemma C7_wrong_selection_count_witness :
  let context := edit (mesh_object [segment_v0]) in
  let out := execute new_operator context in
  completion out = Return CANCELLED /\
  reports out = [(ERROR, "Select exactly two vertices")] /\
  scene out = context.
Proof.
  apply (C7_wrong_selection_count new_operator (edit (mesh_object [segment_v0]))
           (mesh_object [segment_v0])).
  - reflexivity.
  - reflexivity.
  - reflexivity.
  - simpl. lia.
Defined.

(* ================================================================= *)
(** ** C9: the division *)

(** How a call that passes the checks can complete. *)
Lemma passes_checks_completion (self : Operator) (context : Context)
      (obj : Object) (sv0 sv1 : BMVert) :
  passes_checks context obj sv0 sv1 ->
  completion (execute self context) = Return FINISHED \/
  completion (execute self context) = Raise ValueError.
Proof.
  intros H.
  destruct (Rlt_dec (Rabs (scale_factor self obj sv0 sv1 - 1)) 1e-6)
    as [Hno | Hno].
  - rewrite (execute_no_op _ _ _ _ _ H Hno). left. reflexivity.
  - destruct (parent_invertible_dec obj) as [Hp | (p & Ep & Hinv)].
    + destruct (execute_rescale _ _ _ _ _ H Hno Hp) as (obj' & -> & _).
      left. reflexivity.
    + rewrite (execute_child_singular _ _ _ _ _ _ H Hno Ep Hinv).
      right. reflexivity.
Qed.

(** C9: no call ends in [ZeroDivisionError] (nor in [IndexError]): a call
    either is cancelled by one of the checks, the distance check among
    them, before the division is reached, or it passes the checks, and then
    the divisor [current_distance] is not 0 and the division yields the
    scale factor.  [execute] gives an outcome for every operator and
    context, and that outcome is FINISHED, CANCELLED or the [ValueError] of
    the matrix inversion. *)
Theorem C9_division_by_zero_unreachable (self : Operator) (context : Context) :
  let out := execute self context in
  completion out <> Raise ZeroDivisionError /\
  completion out <> Raise IndexError /\
  (completion out = Return FINISHED \/ completion out = Return CANCELLED \/
   completion out = Raise ValueError) /\
  ((exists message, out = cancel context message) \/
   (exists obj sv0 sv1,
      passes_checks context obj sv0 sv1 /\
      world_distance obj sv0 sv1 <> 0 /\
      truediv (effective_target_distance self) (world_distance obj sv0 sv1)
      = Some (scale_factor self obj sv0 sv1))).
Proof.
  cbv zeta.
  destruct (execute_cases self context) as [(m & E) | (obj & sv0 & sv1 & H)].
  - rewrite E. simpl. repeat split; try discriminate.
    + right. left. reflexivity.
    + left. exists m. reflexivity.
  - pose proof (world_distance_pos _ _ _ (proj2 H)) as Hd.
    assert (Hc : completion (execute self context) = Return FINISHED \/
                 completion (execute self context) = Return CANCELLED \/
                 completion (execute self context) = Raise ValueError).
    { destruct (passes_checks_completion self _ _ _ _ H) as [C | C]; auto. }
    split; [|split; [|split]].
    + destruct Hc as [C | [C | C]]; rewrite C; discriminate.
    + destruct Hc as [C | [C | C]]; rewrite C; discriminate.
    + exact Hc.
    + right. exists obj, sv0, sv1. split; [exact H|]. split; [lra|].
      unfold truediv. destruct (Req_dec_T _ _); [lra|reflexivity].
Qed.

(* ================================================================= *)
(** ** C10: the declared minimum of the property *)

Lemma warning_comes_from_clamp (self : Operator) (context : Context) :
  has_report WARNING (execute self context) -> fst (clamp_target self) <> [].
Proof.
  intros (m & Hin) Hnil.
  assert (Hi : forall i, ~ In (WARNING, m) (fst (clamp_target self) ++ [(INFO, i)])).
  { intros i C. rewrite Hnil in C. destruct C as [C | []]. discriminate. }
  destruct (execute_cases self context) as [(e & E) | (obj & sv0 & sv1 & H)].
  - rewrite E in Hin. destruct Hin as [C | []]. discriminate.
  - destruct (Rlt_dec (Rabs (scale_factor self obj sv0 sv1 - 1)) 1e-6)
      as [Hno | Hno].
    + rewrite (execute_no_op _ _ _ _ _ H Hno) in Hin. apply (Hi _ Hin).
    + destruct (parent_invertible_dec obj) as [Hp | (p & Ep & Hinv)].
      * destruct (execute_rescale _ _ _ _ _ H Hno Hp) as (obj' & E & _).
        rewrite E in Hin. apply (Hi _ Hin).
      * rewrite (execute_child_singular _ _ _ _ _ _ H Hno Ep Hinv) in Hin.
        simpl in Hin. rewrite Hnil in Hin. exact Hin.
Qed.

(** C10: a target distance assigned through the property, declared with
    minimum 0, is stored as a non-negative number.  Either the assigned
    value is strictly positive, and then it is stored and used as it is,
    with no clamping and no warning in any context; or it is not, and then
    the stored target is exactly 0 and the clamping branch yields 1e-6 with
    its warning.  In particular the value 1e-9, below the threshold 1e-6,
    is used as it is; and the default is 1. *)
Theorem C10_minimum_of_target_distance (self : Operator) (value : R) :
  let stored := set_target_distance self value in
  0 <= target_distance stored /\
  ((0 < value /\
    target_distance stored = value /\
    clamp_target stored = ([], value) /\
    forall context, ~ has_report WARNING (execute stored context))
   \/
   (value <= 0 /\
    target_distance stored = 0 /\
    clamp_target stored
    = ([(WARNING, "Target distance cannot be 0; using minimum value 0.000001")],
       1e-6))) /\
  clamp_target (set_target_distance self 1e-9) = ([], 1e-9) /\
  target_distance new_operator = 1.
Proof.
  cbv zeta. split; [simpl; apply Rmax_l|]. split; [|split].
  - destruct (Rlt_dec 0 value) as [Hv | Hv].
    + left.
      assert (Et : set_target_distance self value = mkOperator value).
      { unfold set_target_distance. simpl. rewrite Rmax_right by lra.
        reflexivity. }
      rewrite Et. split; [exact Hv|]. split; [reflexivity|].
      split; [apply clamp_target_positive, Hv|].
      intros context C. apply warning_comes_from_clamp in C.
      rewrite clamp_target_positive in C by exact Hv. apply C. reflexivity.
    + right.
      assert (Et : set_target_distance self value = mkOperator 0).
      { unfold set_target_distance. simpl. rewrite Rmax_left by lra.
        reflexivity. }
      rewrite Et. split; [lra|]. split; [reflexivity|].
      apply clamp_target_nonpositive. lra.
  - unfold set_target_distance. simpl. rewrite Rmax_right by lra.
    apply clamp_target_positive. lra.
  - reflexivity.
Qed.

(* ================================================================= *)
(** * Further properties of the operator *)

(* ================================================================= *)
(** ** [invoke]: the dialog and its pre-filled distance *)

Lemma invoke_selects (self : Operator) (context : Context) (obj : Object)
      (sv0 sv1 : BMVert) :
  selects context obj sv0 sv1 ->
  invoke self context
  = mkInvokeOutcome InvokeDialog []
      (set_target_distance self (world_distance obj sv0 sv1)).
Proof.
  intros (Ha & Ht & Hm & Hsel). unfold invoke. rewrite Ha, Ht, Hm. simpl.
  unfold from_edit_mesh. rewrite Hsel. reflexivity.
Qed.

Lemma selects_unique (context : Context) (obj obj' : Object)
      (sv0 sv1 sv0' sv1' : BMVert) :
  selects context obj sv0 sv1 -> selects context obj' sv0' sv1' ->
  obj' = obj /\ sv0' = sv0 /\ sv1' = sv1.
Proof.
  intros (Ha & _ & _ & Hs) (Ha' & _ & _ & Hs').
  assert (obj' = obj) by congruence. subst obj'.
  rewrite Hs in Hs'. injection Hs' as -> ->. repeat split.
Qed.

(** Either one of the first three checks fails, or two vertices are
    selected on an active mesh in Edit Mode. *)
Lemma selects_cases (context : Context) :
  (active_object context = None \/
   (exists obj, active_object context = Some obj /\ type obj <> MESH) \/
   (exists obj, active_object context = Some obj /\ type obj = MESH /\
                mode context <> EDIT_MESH) \/
   (exists obj, active_object context = Some obj /\ type obj = MESH /\
                mode context = EDIT_MESH /\
                List.length (filter select (verts (data obj))) <> 2%nat)) \/
  (exists obj sv0 sv1, selects context obj sv0 sv1).
Proof.
  destruct (active_object context) as [obj|] eqn:Ha; [|left; left; reflexivity].
  destruct (ObjectType_eqb (type obj) MESH) eqn:Et.
  2:{ left. right. left. exists obj. split; [reflexivity|].
      intros C. apply ObjectType_eqb_eq in C. congruence. }
  apply ObjectType_eqb_eq in Et.
  destruct (Mode_eqb (mode context) EDIT_MESH) eqn:Em.
  2:{ left. right. right. left. exists obj. repeat split; try assumption.
      intros C. apply Mode_eqb_eq in C. congruence. }
  apply Mode_eqb_eq in Em.
  destruct (Nat.eq_dec (List.length (filter select (verts (data obj)))) 2)
    as [En | En].
  2:{ left. right. right. right. exists obj. repeat split; assumption. }
  destruct (length_two _ En) as (sv0 & sv1 & Hsel).
  right. exists obj, sv0, sv1. repeat split; assumption.
Qed.

Lemma invoke_no_object (self : Operator) (context : Context) :
  active_object context = None ->
  invoke self context = invoke_cancel self "Active object is not a mesh".
Proof. intros H. unfold invoke. rewrite H. reflexivity. Qed.

Lemma invoke_not_mesh (self : Operator) (context : Context) (obj : Object) :
  active_object context = Some obj -> type obj <> MESH ->
  invoke self context = invoke_cancel self "Active object is not a mesh".
Proof.
  intros Ha Ht. unfold invoke. rewrite Ha.
  destruct (ObjectType_eqb (type obj) MESH) eqn:E; [|reflexivity].
  apply ObjectType_eqb_eq in E. contradiction.
Qed.

Lemma invoke_wrong_mode (self : Operator) (context : Context) (obj : Object) :
  active_object context = Some obj -> type obj = MESH ->
  mode context <> EDIT_MESH ->
  invoke self context = invoke_cancel self "Must be in Edit Mode".
Proof.
  intros Ha Ht Hm. unfold invoke. rewrite Ha, Ht. simpl.
  destruct (Mode_eqb (mode context) EDIT_MESH) eqn:E; [|reflexivity].
  apply Mode_eqb_eq in E. contradiction.
Qed.

Lemma invoke_bad_count (self : Operator) (context : Context) (obj : Object) :
  active_object context = Some obj -> type obj = MESH ->
  mode context = EDIT_MESH ->
  List.length (filter select (verts (data obj))) <> 2%nat ->
  invoke self context = invoke_cancel self "Select exactly two vertices".
Proof.
  intros Ha Ht Hm Hn. unfold invoke. rewrite Ha, Ht, Hm. simpl.
  unfold from_edit_mesh.
  destruct (Nat.eqb_spec (List.length (filter select (verts (data obj)))) 2);
    [contradiction|reflexivity].
Qed.

(** X2: [invoke] has no check for coincident vertices.  With two selected
    vertices at the same world position it still opens the dialog, with
    the target pre-filled with 0; whatever value is then entered,
    [execute] is cancelled with "Selected vertices are at the same
    location" and changes nothing. *)
Theorem X2_invoke_accepts_coincident_vertices (self : Operator)
        (context : Context) (obj : Object) (sv0 sv1 : BMVert) :
  selects context obj sv0 sv1 ->
  world_co obj sv0 = world_co obj sv1 ->
  let shown := invoke self context in
  invoke_completion shown = InvokeDialog /\
  invoke_reports shown = [] /\
  target_distance (invoke_self shown) = 0 /\
  forall value,
    execute (set_target_distance (invoke_self shown) value) context
    = cancel context "Selected vertices are at the same location".
Proof.
  intros Hs He. cbv zeta. rewrite (invoke_selects _ _ _ _ _ Hs).
  cbn [invoke_completion invoke_reports invoke_self].
  split; [reflexivity|]. split; [reflexivity|]. split.
  - apply world_distance_eq_0 in He. rewrite He. simpl.
    apply Rmax_left. lra.
  - intros value. apply (execute_coincident _ _ _ _ _ Hs He).
Qed.

Lemma X2_invoke_accepts_coincident_vertices_witness :
  let context := edit (segment 0 None) in
  let shown := invoke new_operator context in
  invoke_completion shown = InvokeDialog /\
  invoke_reports shown = [] /\
  target_distance (invoke_self shown) = 0 /\
  forall value,
    execute (set_target_distance (invoke_self shown) value) context
    = cancel context "Selected vertices are at the same location".
Proof.
  apply (X2_invoke_accepts_coincident_vertices new_operator
           (edit (segment 0 None)) (segment 0 None) segment_v0 (segment_v1 0)).
  - repeat split.
  - reflexivity.
Defined.

(** X3: [invoke] and [execute] agree on the first three checks.  For
    every operator and context, either [invoke] is cancelled, and then
    [execute] on the same context is cancelled with the same single error
    report, the operator's target distance is left as it was and no two
    vertices are selected on an active mesh in Edit Mode; or two vertices
    are so selected and [invoke] opens the dialog with the target set to
    their measured distance.  [invoke] never raises. *)
Theorem X3_invoke_checks_agree_with_execute (self : Operator)
        (context : Context) :
  (exists message,
     invoke self context = invoke_cancel self message /\
     execute self context = cancel context message /\
     ~ exists obj sv0 sv1, selects context obj sv0 sv1) \/
  (exists obj sv0 sv1,
     selects context obj sv0 sv1 /\
     invoke self context
     = mkInvokeOutcome InvokeDialog []
         (set_target_distance self (world_distance obj sv0 sv1))).
Proof.
  destruct (selects_cases context)
    as [[H | [(obj & Ha & Ht) | [(obj & Ha & Ht & Hm)
        | (obj & Ha & Ht & Hm & Hn)]]] | (obj & sv0 & sv1 & Hs)].
  - left. eexists. split; [apply invoke_no_object, H|].
    split; [apply execute_no_object, H|].
    intros (o & a & b & Ha & _). congruence.
  - left. eexists. split; [apply (invoke_not_mesh _ _ _ Ha Ht)|].
    split; [apply (execute_not_mesh _ _ _ Ha Ht)|].
    intros (o & a & b & Ha' & Ht' & _). congruence.
  - left. eexists. split; [apply (invoke_wrong_mode _ _ _ Ha Ht Hm)|].
    split; [apply (execute_wrong_mode _ _ _ Ha Ht Hm)|].
    intros (o & a & b & _ & _ & Hm' & _). contradiction.
  - left. eexists. split; [apply (invoke_bad_count _ _ _ Ha Ht Hm Hn)|].
    split; [apply (execute_bad_count _ _ _ Ha Ht Hm Hn)|].
    intros (o & a & b & Ha' & _ & _ & Hsel).
    assert (o = obj) by congruence. subst o. rewrite Hsel in Hn.
    apply Hn. reflexivity.
  - right. exists obj, sv0, sv1. split; [exact Hs|].
    apply invoke_selects, Hs.
Qed.

(* ================================================================= *)
(** ** [execute]: what is touched and what is reported *)

(** The three ways a call that passes the checks can end. *)
Lemma execute_passes_shape (self : Operator) (context : Context)
      (obj : Object) (sv0 sv1 : BMVert) :
  passes_checks context obj sv0 sv1 ->
  let s := scale_factor self obj sv0 sv1 in
  let ws := fst (clamp_target self) in
  (Rabs (s - 1) < 1e-6 /\
   execute self context
   = mkOutcome (Return FINISHED) (ws ++ [(INFO, "No scaling needed")]) context)
  \/
  (~ Rabs (s - 1) < 1e-6 /\
   exists l,
     to_parent_space obj (new_world_loc obj sv0 sv1 s) = Some l /\
     execute self context
     = mkOutcome (Return FINISHED)
         (ws ++ [(INFO, "Object scaled successfully")])
         (with_active_object context
            (set_location (set_scale obj (scale obj * s)) l)))
  \/
  (~ Rabs (s - 1) < 1e-6 /\
   to_parent_space obj (new_world_loc obj sv0 sv1 s) = None /\
   execute self context
   = mkOutcome (Raise ValueError) ws
       (with_active_object context (set_scale obj (scale obj * s)))).
Proof.
  intros H. cbv zeta. unfold to_parent_space.
  destruct (Rlt_dec (Rabs (scale_factor self obj sv0 sv1 - 1)) 1e-6)
    as [Hno | Hno].
  { left. split; [exact Hno|]. apply (execute_no_op _ _ _ _ _ H Hno). }
  right. destruct (parent obj) as [p|] eqn:Ep.
  - destruct (inverted (matrix_world p)) as [inv|] eqn:Ei.
    + left. split; [exact Hno|]. eexists. split; [reflexivity|].
      apply (execute_child _ _ _ _ _ _ _ H Hno Ep Ei).
    + right. split; [exact Hno|]. split; [reflexivity|].
      apply (execute_child_singular _ _ _ _ _ _ H Hno Ep Ei).
  - left. split; [exact Hno|]. eexists. split; [reflexivity|].
    apply (execute_root _ _ _ _ _ H Hno Ep).
Qed.

(** X4: [execute] touches nothing but the scale and the location of the
    active object.  For every operator and context the mode is the same
    afterwards; without active object there is none afterwards; and an
    active object keeps its type, rotation, parent and mesh (vertex
    coordinates and selection). *)
Theorem X4_execute_touches_only_scale_and_location (self : Operator)
        (context : Context) :
  let out := execute self context in
  mode (scene out) = mode context /\
  match active_object context with
  | None => object_after out = None
  | Some obj =>
    exists obj',
      object_after out = Some obj' /\
      type obj' = type obj /\ rotation obj' = rotation obj /\
      parent obj' = parent obj /\ data obj' = data obj
  end.
Proof.
  cbv zeta.
  destruct (execute_cases self context) as [(m & E) | (obj & sv0 & sv1 & H)].
  - rewrite E. unfold object_after. simpl. split; [reflexivity|].
    destruct (active_object context) as [obj|]; [|reflexivity].
    exists obj. repeat split.
  - pose proof (proj1 (proj1 H)) as Ha. rewrite Ha.
    destruct (execute_passes_shape self _ _ _ _ H)
      as [(_ & E) | [(_ & l & _ & E) | (_ & _ & E)]];
      rewrite E; unfold object_after; simpl.
    + split; [reflexivity|]. exists obj. rewrite Ha. repeat split.
    + split; [reflexivity|]. eexists. split; [reflexivity|].
      destruct obj; repeat split.
    + split; [reflexivity|]. eexists. split; [reflexivity|].
      destruct obj; repeat split.
Qed.



(** Exactly which check cancels a call, if any. *)
Lemma execute_decision (self : Operator) (context : Context) :
  ((active_object context = None \/
    exists obj, active_object context = Some obj /\ type obj <> MESH) /\
   execute self context = cancel context "Active object is not a mesh") \/
  ((exists obj, active_object context = Some obj /\ type obj = MESH /\
                mode context <> EDIT_MESH) /\
   execute self context = cancel context "Must be in Edit Mode") \/
  ((exists obj, active_object context = Some obj /\ type obj = MESH /\
                mode context = EDIT_MESH /\
                List.length (filter select (verts (data obj))) <> 2%nat) /\
   execute self context = cancel context "Select exactly two vertices") \/
  ((exists obj sv0 sv1, selects context obj sv0 sv1 /\
                        world_co obj sv0 = world_co obj sv1) /\
   execute self context
   = cancel context "Selected vertices are at the same location") \/
  ((exists obj sv0 sv1, passes_checks context obj sv0 sv1) /\
   completion (execute self context) <> Return CANCELLED).
Proof.
  destruct (selects_cases context)
    as [[H | [(obj & Ha & Ht) | [(obj & Ha & Ht & Hm)
        | (obj & Ha & Ht & Hm & Hn)]]] | (obj & sv0 & sv1 & Hs)].
  - left. split; [left; exact H | apply execute_no_object, H].
  - left. split; [right; eauto | apply (execute_not_mesh _ _ _ Ha Ht)].
  - right. left. split; [eauto | apply (execute_wrong_mode _ _ _ Ha Ht Hm)].
  - right. right. left.
    split; [eauto 6 | apply (execute_bad_count _ _ _ Ha Ht Hm Hn)].
  - destruct (Req_dec_T (world_distance obj sv0 sv1) 0) as [E0 | E0].
    + apply world_distance_eq_0 in E0. right. right. right. left.
      split; [eauto 6 | apply (execute_coincident _ _ _ _ _ Hs E0)].
    + right. right. right. right.
      assert (H : passes_checks context obj sv0 sv1).
      { split; [exact Hs|]. intros C. apply E0, world_distance_eq_0, C. }
      split; [eauto|]. apply (passes_checks_not_cancelled self _ _ _ _ H).
Qed.

(** X6: the checks are made in a fixed order and the first one that fails
    decides the error.  For every operator and context, [execute] cancels
    with "Active object is not a mesh" exactly when there is no active
    object or it is not a mesh; with "Must be in Edit Mode" exactly when a
    mesh is active outside Edit Mode; with "Select exactly two vertices"
    exactly when a mesh is active in Edit Mode and the number of selected
    vertices is not two; and with "Selected vertices are at the same
    location" exactly when two vertices are selected there and the
    distance measured between their world positions is 0. *)
Theorem X6_first_failing_check_decides_the_error (self : Operator)
        (context : Context) :
  (execute self context = cancel context "Active object is not a mesh" <->
   active_object context = None \/
   exists obj, active_object context = Some obj /\ type obj <> MESH) /\
  (execute self context = cancel context "Must be in Edit Mode" <->
   exists obj, active_object context = Some obj /\ type obj = MESH /\
               mode context <> EDIT_MESH) /\
  (execute self context = cancel context "Select exactly two vertices" <->
   exists obj, active_object context = Some obj /\ type obj = MESH /\
               mode context = EDIT_MESH /\
               List.length (filter select (verts (data obj))) <> 2%nat) /\
  (execute self context
   = cancel context "Selected vertices are at the same location" <->
   exists obj sv0 sv1, selects context obj sv0 sv1 /\
                       world_distance obj sv0 sv1 = 0).
Proof.
  split; [|split; [|split]];
    (split;
     [ intros X;
       destruct (execute_decision self context)
         as [(C & E) | [(C & E) | [(C & E) | [(C & E) | (C & E)]]]];
       try exact C;
       try (destruct C as (obj & sv0 & sv1 & Hs & He);
            exists obj, sv0, sv1; split;
            [exact Hs | apply world_distance_eq_0, He]);
       exfalso; rewrite X in E;
       first [ discriminate E | apply E; reflexivity ]
     | intros C ]).
  - destruct C as [C | (obj & Ha & Ht)];
      [apply execute_no_object, C | apply (execute_not_mesh _ _ _ Ha Ht)].
  - destruct C as (obj & Ha & Ht & Hm).
    apply (execute_wrong_mode _ _ _ Ha Ht Hm).
  - destruct C as (obj & Ha & Ht & Hm & Hn).
    apply (execute_bad_count _ _ _ Ha Ht Hm Hn).
  - destruct C as (obj & sv0 & sv1 & Hs & He).
    apply world_distance_eq_0 in He.
    apply (execute_coincident _ _ _ _ _ Hs He).
Qed.

(* ================================================================= *)
(** ** [execute]: when the object is changed *)

Lemma world_distance_sym (obj : Object) (a b : BMVert) :
  world_distance obj a b = world_distance obj b a.
Proof.
  unfold world_distance, Vector_length. f_equal.
  unfold dot, Vector_sub; simpl. ring.
Qed.





(* ================================================================= *)
(** ** [execute]: what the result depends on *)

Lemma matrix_world_set_data (obj : Object) (d : BMesh) :
  matrix_world (set_data obj d) = matrix_world obj.
Proof. destruct obj; reflexivity. Qed.

Lemma world_co_set_data (obj : Object) (d : BMesh) (v : BMVert) :
  world_co (set_data obj d) v = world_co obj v.
Proof. unfold world_co. rewrite matrix_world_set_data. reflexivity. Qed.

Lemma world_midpoint_sym (obj : Object) (a b : BMVert) :
  world_midpoint obj a b = world_midpoint obj b a.
Proof. unfold world_midpoint. vec_eq; ring. Qed.

(** X12: the result depends only on the object's transform and on the two
    selected vertices, not on the order in which the mesh lists them nor
    on the rest of the mesh.  If two contexts have active objects that
    differ only in their mesh, and the selected vertices are [sv0], [sv1]
    in one and [sv1], [sv0] in the other, then [execute] completes the
    same way, reports the same messages and leaves the same scale and the
    same location. *)
Theorem X12_vertex_order_is_irrelevant (self : Operator)
        (context context' : Context) (obj : Object) (d' : BMesh)
        (sv0 sv1 : BMVert) :
  selects context obj sv0 sv1 ->
  selects context' (set_data obj d') sv1 sv0 ->
  let out := execute self context in
  let out' := execute self context' in
  completion out' = completion out /\
  reports out' = reports out /\
  option_map scale (object_after out') = option_map scale (object_after out) /\
  option_map location (object_after out')
  = option_map location (object_after out).
Proof.
  intros Hs Hs'. cbv zeta.
  destruct (Req_dec_T (world_distance obj sv0 sv1) 0) as [E0 | E0].
  - apply world_distance_eq_0 in E0.
    rewrite (execute_coincident _ _ _ _ _ Hs E0).
    rewrite (execute_coincident _ _ _ _ _ Hs');
      [|rewrite !world_co_set_data; symmetry; exact E0].
    unfold object_after; simpl.
    rewrite (proj1 Hs), (proj1 Hs'). repeat split.
  - assert (H : passes_checks context obj sv0 sv1).
    { split; [exact Hs|]. intros C. apply E0, world_distance_eq_0, C. }
    assert (H' : passes_checks context' (set_data obj d') sv1 sv0).
    { split; [exact Hs'|]. rewrite !world_co_set_data.
      intros C. apply (proj2 H). symmetry. exact C. }
    assert (Ed : world_distance (set_data obj d') sv1 sv0
                 = world_distance obj sv0 sv1).
    { unfold world_distance. rewrite !world_co_set_data.
      apply (world_distance_sym obj sv1 sv0). }
    assert (Es : scale_factor self (set_data obj d') sv1 sv0
                 = scale_factor self obj sv0 sv1).
    { unfold scale_factor. rewrite Ed. reflexivity. }
    assert (Enw : forall s, new_world_loc (set_data obj d') sv1 sv0 s
                            = new_world_loc obj sv0 sv1 s).
    { intros s. unfold new_world_loc, world_midpoint.
      rewrite !world_co_set_data, matrix_world_set_data.
      fold (world_midpoint obj sv1 sv0). fold (world_midpoint obj sv0 sv1).
      rewrite (world_midpoint_sym obj sv1 sv0). reflexivity. }
    destruct (execute_passes_shape self _ _ _ _ H')
      as [(W' & E') | [(W' & l' & Hl' & E') | (W' & Hl' & E')]];
      rewrite Es in *; try rewrite Enw in Hl';
      change (to_parent_space (set_data obj d')) with (to_parent_space obj)
        in *;
      destruct (execute_passes_shape self _ _ _ _ H)
        as [(W & E) | [(W & l & Hl & E) | (W & Hl & E)]];
      try contradiction; try congruence;
      rewrite E, E'; unfold object_after; simpl.
    + rewrite (proj1 Hs), (proj1 Hs'). repeat split.
    + assert (l' = l) by congruence. subst l'. repeat split.
    + repeat split.
Qed.

Lemma X12_vertex_order_is_irrelevant_witness :
  let obj := mesh_object [segment_v0; segment_v1 2] in
  let d' := mkBMesh [segment_v1 2; mkBMVert (Vec 5 5 5) false; segment_v0] in
  let out := execute (mkOperator 1) (edit obj) in
  let out' := execute (mkOperator 1) (edit (set_data obj d')) in
  completion out' = completion out /\
  reports out' = reports out /\
  option_map scale (object_after out') = option_map scale (object_after out) /\
  option_map location (object_after out')
  = option_map location (object_after out).
Proof.
  apply (X12_vertex_order_is_irrelevant (mkOperator 1)
           (edit (mesh_object [segment_v0; segment_v1 2]))
           (edit (set_data (mesh_object [segment_v0; segment_v1 2])
                    (mkBMesh [segment_v1 2; mkBMVert (Vec 5 5 5) false;
                              segment_v0])))
           (mesh_object [segment_v0; segment_v1 2])
           (mkBMesh [segment_v1 2; mkBMVert (Vec 5 5 5) false; segment_v0])
           segment_v0 (segment_v1 2)).
  - repeat split.
  - repeat split.
Defined.

(* ================================================================= *)
(** ** [execute]: the parent without inverse *)

(** X13: [execute] ends in [ValueError] exactly when [inverted()] fails
    on a rescale.  For every operator and context the call completes with
    [ValueError] if and only if two vertices are selected on an active
    mesh in Edit Mode, the distance measured between them is not 0, the
    computed scale factor is outside the no-op window, and the object has
    a parent for whose world matrix [inverted()] raises.  Whenever these
    conditions hold, the call leaves the object with its scale already
    multiplied by the factor and its location not updated, and reports
    nothing but the clamping warning, if any. *)
Theorem X13_value_error_exactly_when_inversion_fails (self : Operator)
        (context : Context) :
  (completion (execute self context) = Raise ValueError <->
   exists obj sv0 sv1 p,
     selects context obj sv0 sv1 /\
     world_distance obj sv0 sv1 <> 0 /\
     ~ Rabs (scale_factor self obj sv0 sv1 - 1) < 1e-6 /\
     parent obj = Some p /\
     inverted (matrix_world p) = None) /\
  (forall obj sv0 sv1 p,
     selects context obj sv0 sv1 ->
     world_distance obj sv0 sv1 <> 0 ->
     ~ Rabs (scale_factor self obj sv0 sv1 - 1) < 1e-6 ->
     parent obj = Some p ->
     inverted (matrix_world p) = None ->
     execute self context
     = mkOutcome (Raise ValueError) (fst (clamp_target self))
         (with_active_object context
            (mkObject (type obj) (location obj) (rotation obj)
                      (scale obj * scale_factor self obj sv0 sv1)
                      (parent obj) (data obj)))).
Proof.
  assert (S : forall obj sv0 sv1 p,
             selects context obj sv0 sv1 ->
             world_distance obj sv0 sv1 <> 0 ->
             ~ Rabs (scale_factor self obj sv0 sv1 - 1) < 1e-6 ->
             parent obj = Some p ->
             inverted (matrix_world p) = None ->
             execute self context
             = mkOutcome (Raise ValueError) (fst (clamp_target self))
                 (with_active_object context
                    (mkObject (type obj) (location obj) (rotation obj)
                              (scale obj * scale_factor self obj sv0 sv1)
                              (parent obj) (data obj)))).
  { intros obj sv0 sv1 p Hs Hd Hno Ep Ei.
    assert (H : passes_checks context obj sv0 sv1).
    { split; [exact Hs|]. intros C. apply Hd, world_distance_eq_0, C. }
    rewrite (execute_child_singular _ _ _ _ _ _ H Hno Ep Ei). reflexivity. }
  split; [split|exact S].
  - intros Hc.
    destruct (execute_cases self context) as [(m & E) | (obj & sv0 & sv1 & H)].
    { rewrite E in Hc. discriminate. }
    destruct (execute_passes_shape self _ _ _ _ H)
      as [(_ & E) | [(_ & l & _ & E) | (Hno & Hl & E)]];
      try (rewrite E in Hc; discriminate).
    unfold to_parent_space in Hl.
    destruct (parent obj) as [p|] eqn:Ep; [|discriminate].
    destruct (inverted (matrix_world p)) eqn:Ei; [discriminate|].
    exists obj, sv0, sv1, p. split; [apply H|].
    split; [|split; [exact Hno|split; [exact Ep|exact Ei]]].
    intros C. apply world_distance_eq_0 in C. apply (proj2 H C).
  - intros (obj & sv0 & sv1 & p & Hs & Hd & Hno & Ep & Ei).
    rewrite (S obj sv0 sv1 p Hs Hd Hno Ep Ei). reflexivity.
Qed.

Lemma X13_value_error_exactly_when_inversion_fails_witness :
  completion (execute (mkOperator 1) (edit (segment 2 (Some flat_parent))))
  = Raise ValueError.
Proof.
  apply (X13_value_error_exactly_when_inversion_fails (mkOperator 1)
           (edit (segment 2 (Some flat_parent)))).
  exists (segment 2 (Some flat_parent)), segment_v0, (segment_v1 2),
         flat_parent.
  split; [repeat split|].
  split; [rewrite world_distance_segment_flat by lra; lra|].
  split; [|split; [reflexivity | apply flat_parent_singular]].
  rewrite scale_factor_positive_target by (simpl; lra).
  rewrite world_distance_segment_flat by lra. simpl.
  rewrite Rabs_left; lra.
Defined.
